(** * Time-Complexity-Analyzer: the classifier, the loop-tree builder and the
      evaluator of [complexity.py], embedded and verified.

    The program has three stages:
    - [extract_iterable] maps the iteration source of a [for] statement to a
      symbolic tag, a Python [str]: ["c"], ["len(<name>)"] or ["len(other)"];
    - [LoopTreeVisitor] walks a parsed module and builds a tree of [LoopNode]
      objects by mutating the [children] lists of the nodes on its
      [loop_stack];
    - [compute_complexity] folds that tree into a cost expression, again a
      Python [str].

    Strings are [String.string]; the Python objects the visitor allocates
    and mutates live in an explicit store addressed by [nat]. *)

From Stdlib Require Import String Ascii List Arith Lia ZArith.
From stdpp Require Import base option list.
Import ListNotations.

Set Warnings "-register-all".

Local Open Scope string_scope.
Local Open Scope list_scope.

(** ** The syntax trees handed over by the parser

    A fragment of Python's [ast] module: the expressions the classifier
    tells apart and a sample of those it does not, the two loop statements
    the visitor has methods for, and compound and simple statements that
    it walks generically.  Every field the program reads is present under
    its [ast] name. *)
Module ast.

(** The payload of an [ast.Constant]. *)
Inductive constant : Type :=
| CInt (z : Z)
| CStr (s : string)
| CBool (b : bool)
| CNone.

Inductive expr : Type :=
| Constant (value : constant)
| List (elts : list expr)
| Tuple (elts : list expr)
| Set_ (elts : list expr)
| Dict (keys : list (option expr)) (values : list expr)
| Name (id : string)
| Call (func : expr) (args : list expr) (keywords : list (option string * expr))
| Attribute (value : expr) (attr : string)
| Subscript (value : expr) (slice : expr)
| Starred (value : expr)
| BinOp (left : expr) (op : string) (right : expr)
| UnaryOp (op : string) (operand : expr)
| Compare (left : expr) (ops : list string) (comparators : list expr)
| Lambda (args : list string) (body : expr)
| IfExp (test : expr) (body : expr) (orelse : expr).

(** Statements.  [Try] keeps the bodies of its [ExceptHandler]s, in order;
    the handlers' [type] and [name] hold no statement.  [Match] keeps the
    bodies of its [match_case]s in the same way. *)
Inductive stmt : Type :=
| FunctionDef (name : string) (body : list stmt)
| AsyncFunctionDef (name : string) (body : list stmt)
| ClassDef (name : string) (body : list stmt)
| Return (value : option expr)
| Assign (targets : list expr) (value : expr)
| For (target : expr) (iter : expr) (body : list stmt) (orelse : list stmt)
| AsyncFor (target : expr) (iter : expr) (body : list stmt) (orelse : list stmt)
| While (test : expr) (body : list stmt) (orelse : list stmt)
| If (test : expr) (body : list stmt) (orelse : list stmt)
| With (items : list expr) (body : list stmt)
| AsyncWith (items : list expr) (body : list stmt)
| Match (subject : expr) (cases : list (list stmt))
| Try (body : list stmt) (handlers : list (list stmt))
      (orelse : list stmt) (finalbody : list stmt)
| Expr (value : expr)
| Pass
| Break
| Continue.

(** A parsed module: [ast.Module(body=...)]. *)
Definition module : Type := list stmt.

End ast.

(** ** 1. The classifier: [extract_iterable] *)

(** [f"len({name})"] *)
Definition len_of (name : string) : string := "len(" ++ name ++ ")".

(** [isinstance(e, ast.Constant)] *)
Definition is_Constant (e : ast.expr) : bool :=
  match e with ast.Constant _ => true | _ => false end.

(** [isinstance(e, (ast.Constant, ast.List, ast.Tuple, ast.Set, ast.Dict))] *)
Definition is_literal_or_container (e : ast.expr) : bool :=
  match e with
  | ast.Constant _ | ast.List _ | ast.Tuple _ | ast.Set_ _ | ast.Dict _ _ => true
  | _ => false
  end.

(** The test of lines 52-53:
    [isinstance(arg, ast.Call) and isinstance(arg.func, ast.Name) and
     arg.func.id == "len" and arg.args and isinstance(arg.args[0], ast.Name)];
    when it holds, the [id] of [arg.args[0]]. *)
Definition len_call_of_name (arg : ast.expr) : option string :=
  match arg with
  | ast.Call (ast.Name fid) (ast.Name id :: _) _ =>
      if String.eqb fid "len" then Some id else None
  | _ => None
  end.

(** The body of the loop of lines 47-56 at an argument that is not an
    [ast.Constant]: each of its three branches returns. *)
Definition classify_range_arg (arg : ast.expr) : string :=
  match arg with
  | ast.Name id => len_of id
  | _ =>
      match len_call_of_name arg with
      | Some id => len_of id
      | None => "len(other)"
      end
  end.

(** The loop of lines 47-57 over [iter_node.args]. *)
Fixpoint scan_range_args (args : list ast.expr) : string :=
  match args with
  | [] => "len(other)"
  | arg :: rest =>
      if negb (is_Constant arg) then classify_range_arg arg
      else scan_range_args rest
  end.

Definition extract_iterable (iter_node : ast.expr) : string :=
  if is_literal_or_container iter_node then "c"
  else
    match iter_node with
    | ast.Call func args _ =>
        match func with
        | ast.Name fname =>
            if String.eqb fname "range" then
              if forallb is_Constant args then "c"
              else scan_range_args args
            else if String.eqb fname "len" then
              match args with
              | ast.Name id :: _ => len_of id
              | _ => "len(other)"
              end
            else "len(other)"
        | _ => "len(other)"
        end
    | ast.Name id => len_of id
    | _ => "len(other)"
    end.

(** ** 2. The loop tree

    A [LoopNode] carries [loop_type] ([None] for the global root, ["For"] or
    ["While"]), [iterable] (the tag of a ["For"] node, [None] otherwise) and
    [children].  [loop_kind] holds the first two attributes together: the
    tag exists exactly on a ["For"] node.  With these three values of
    [loop_type], the only ones the class documents and the visitor stores,
    the final [return "1"] of [compute_complexity] is never reached.  The
    attribute [node], a reference back into the syntax tree, is read by no
    function and is left out. *)
Inductive loop_kind : Type :=
| Root
| For (iterable : string)
| While.

(** The tree as the evaluator and the serializer read it: a node and,
    through [children], the nodes below it. *)
Inductive LoopNode : Type :=
| mkLoopNode (kind : loop_kind) (children : list LoopNode).

(** ** 3. The evaluator: [compute_complexity] *)

(** [c != "1"] *)
Definition not_one (c : string) : bool := negb (String.eqb c "1").

(** [c == "1"] *)
Definition is_one (c : string) : bool := String.eqb c "1".

(** [" + ".join(costs) if node.children else "1"], lines 174 and 184;
    [costs] has one entry for each child. *)
Definition inner_cost (costs : list string) : string :=
  match costs with
  | [] => "1"
  | _ => String.concat " + " costs
  end.

Fixpoint compute_complexity (node : LoopNode) : string :=
  match node with
  | mkLoopNode k children =>
      let costs := List.map compute_complexity children in
      match k with
      | Root =>
          let non_ones := List.filter not_one costs in
          match non_ones with
          | [] => "1"
          | _ => String.concat " + " non_ones
          end
      | For factor =>
          let factor_expr := if String.eqb factor "c" then "1" else factor in
          let inner := inner_cost costs in
          if String.eqb inner "1" then factor_expr
          else if String.eqb factor_expr "1" then inner
          else factor_expr ++ "*(" ++ inner ++ ")"
      | While =>
          let inner := inner_cost costs in
          if String.eqb inner "1" then "?" else "?*(" ++ inner ++ ")"
      end
  end.

(** ** 4. The builder: [LoopTreeVisitor]

    The visitor mutates [LoopNode] objects that are reachable both from
    their parent's [children] list and from [loop_stack], so the objects
    live in a store and are named by their address. *)

(** A [LoopNode] object: its [children] list holds references. *)
Record LoopNodeObj : Type := mkObj {
  obj_kind : loop_kind;
  obj_children : list nat
}.

(** The store together with the two attributes of the visitor; the last
    element of [loop_stack] is [loop_stack[-1]]. *)
Record state : Type := mkState {
  store : list LoopNodeObj;
  root : nat;
  loop_stack : list nat
}.

(** Computations of the visitor: they update the state, and fail where
    Python raises (an index into an empty [loop_stack]) or where a
    reference names no object. *)
Definition M (A : Type) : Type := state -> option (A * state).

Definition ret {A : Type} (a : A) : M A := fun s => Some (a, s).

Definition bind {A B : Type} (m : M A) (f : A -> M B) : M B :=
  fun s => match m s with
           | Some (a, s') => f a s'
           | None => None
           end.

Notation "x <<- m ;; k" := (bind m (fun x => k))
  (at level 100, m at level 99, k at level 100, right associativity).
Notation "m ;;; k" := (bind m (fun _ => k))
  (at level 100, k at level 100, right associativity).

(** [LoopNode(node, loop_type, iterable)]: a fresh object, [children = []]. *)
Definition new_LoopNode (k : loop_kind) : M nat :=
  fun s => Some (length (store s),
                 mkState (store s ++ [mkObj k []]) (root s) (loop_stack s)).

(** [self.loop_stack[-1]] *)
Definition stack_top : M nat :=
  fun s => match last (loop_stack s) with
           | Some a => Some (a, s)
           | None => None
           end.

(** [parent.children.append(child)] *)
Definition children_append (parent child : nat) : M unit :=
  fun s => match store s !! parent with
           | Some o =>
               Some (tt, mkState
                           (<[parent := mkObj (obj_kind o) (obj_children o ++ [child])]>
                              (store s))
                           (root s) (loop_stack s))
           | None => None
           end.

(** [self.loop_stack.append(a)] *)
Definition stack_append (a : nat) : M unit :=
  fun s => Some (tt, mkState (store s) (root s) (loop_stack s ++ [a])).

(** [self.loop_stack.pop()] *)
Definition stack_pop : M unit :=
  fun s => match loop_stack s with
           | [] => None
           | _ => Some (tt, mkState (store s) (root s) (removelast (loop_stack s)))
           end.

(** [for x in xs: f(x)] *)
Definition for_each {A : Type} (f : A -> M unit) : list A -> M unit :=
  fix go (xs : list A) : M unit :=
    match xs with
    | [] => ret tt
    | x :: xs' => f x ;;; go xs'
    end.

(** What [visit_For] and [visit_While] share from their second line on. *)
Definition enter_loop (visit : ast.stmt -> M unit) (k : loop_kind)
    (body orelse : list ast.stmt) : M unit :=
  new_loop <<- new_LoopNode k ;;
  top <<- stack_top ;;
  children_append top new_loop ;;;
  stack_append new_loop ;;;
  for_each visit body ;;;
  for_each visit orelse ;;;
  stack_pop.

Definition visit_For (visit : ast.stmt -> M unit) (iter : ast.expr)
    (body orelse : list ast.stmt) : M unit :=
  let iterable := extract_iterable iter in
  enter_loop visit (For iterable) body orelse.

Definition visit_While (visit : ast.stmt -> M unit)
    (body orelse : list ast.stmt) : M unit :=
  enter_loop visit While body orelse.

(** [NodeVisitor.generic_visit]: visit the fields of the node in their
    declared order.  An expression contains no statement, so visiting one
    reaches neither [visit_For] nor [visit_While] and leaves the state as
    it is; only the fields that hold statements are walked. *)
Definition generic_visit (visit : ast.stmt -> M unit) (node : ast.stmt) : M unit :=
  match node with
  | ast.FunctionDef _ body => for_each visit body
  | ast.AsyncFunctionDef _ body => for_each visit body
  | ast.ClassDef _ body => for_each visit body
  | ast.For _ _ body orelse => for_each visit body ;;; for_each visit orelse
  | ast.AsyncFor _ _ body orelse => for_each visit body ;;; for_each visit orelse
  | ast.While _ body orelse => for_each visit body ;;; for_each visit orelse
  | ast.If _ body orelse => for_each visit body ;;; for_each visit orelse
  | ast.With _ body => for_each visit body
  | ast.AsyncWith _ body => for_each visit body
  | ast.Match _ cases => for_each (for_each visit) cases
  | ast.Try body handlers orelse finalbody =>
      for_each visit body ;;;
      for_each (for_each visit) handlers ;;;
      for_each visit orelse ;;;
      for_each visit finalbody
  | ast.Return _ | ast.Assign _ _ | ast.Expr _
  | ast.Pass | ast.Break | ast.Continue => ret tt
  end.

(** [NodeVisitor.visit]: dispatch on the class of the node, to [visit_For],
    to [visit_While], and to [generic_visit] for every other class; the
    visitor has no method for [AsyncFor]. *)
Fixpoint visit (node : ast.stmt) : M unit :=
  match node with
  | ast.For _ iter body orelse => visit_For visit iter body orelse
  | ast.While _ body orelse => visit_While visit body orelse
  | _ => generic_visit visit node
  end.

(** [LoopTreeVisitor()] in a store that already holds [h]:
    [self.root = LoopNode("Global Root")], [self.loop_stack = [self.root]]. *)
Definition LoopTreeVisitor (h : list LoopNodeObj) : state :=
  mkState (h ++ [mkObj Root []]) (length h) [length h].

(** [visitor.visit(tree)] for [tree = ast.Module(body)]: the class has no
    [visit_Module], so [generic_visit] visits the statements of [body]. *)
Definition visit_Module (body : ast.module) : M unit := for_each visit body.

(** Reading the tree below a reference off the store.  [fuel] bounds the
    depth followed; [read_tree_enough] shows when it is enough. *)
Fixpoint read_tree (fuel : nat) (h : list LoopNodeObj) (a : nat) : option LoopNode :=
  match fuel with
  | O => None
  | S fuel' =>
      match h !! a with
      | Some o =>
          match mapM (read_tree fuel' h) (obj_children o) with
          | Some ts => Some (mkLoopNode (obj_kind o) ts)
          | None => None
          end
      | None => None
      end
  end.

(** A fresh visitor run over [body] in a store holding [h]: the final
    state. *)
Definition run_visitor (h : list LoopNodeObj) (body : ast.module) : option state :=
  match visit_Module body (LoopTreeVisitor h) with
  | Some (_, s) => Some s
  | None => None
  end.

(** [visitor.root] as a tree. *)
Definition root_tree (s : state) : option LoopNode :=
  read_tree (length (store s)) (store s) (root s).

(** The builder on a module, from an empty store. *)
Definition build_loop_tree (body : ast.module) : option LoopNode :=
  match run_visitor [] body with
  | Some s => root_tree s
  | None => None
  end.

(** The whole pipeline of section 4 of the program. *)
Definition time_complexity (body : ast.module) : option string :=
  match build_loop_tree body with
  | Some t => Some (compute_complexity t)
  | None => None
  end.

(** The sample of lines 193-199 as [ast.parse] returns it. *)
Definition sample_code : ast.module :=
  [ ast.For (ast.Name "i")
      (ast.Call (ast.Name "range")
         [ast.Constant (ast.CInt 1); ast.Name "n"] [])
      [ ast.For (ast.Name "j")
          (ast.List [ast.Constant (ast.CStr "a"); ast.Constant (ast.CStr "b");
                     ast.Constant (ast.CStr "c")])
          [ ast.Expr (ast.Call (ast.Name "print")
                        [ast.Name "i"; ast.Name "j"] []) ]
          [] ]
      [];
    ast.For (ast.Name "i") (ast.Name "num")
      [ ast.Expr (ast.Call (ast.Name "print") [ast.Constant (ast.CInt 1)] []) ]
      [] ].

(** ** 5. Derived descriptions used by the statements below *)

(** The loop nodes a statement contributes to the node on top of the
    stack, in order of creation.  [visit_correct] shows that [visit] builds
    exactly these. *)
Fixpoint loops_of_stmt (s : ast.stmt) : list LoopNode :=
  match s with
  | ast.For _ iter body orelse =>
      [mkLoopNode (For (extract_iterable iter))
         (flat_map loops_of_stmt body ++ flat_map loops_of_stmt orelse)]
  | ast.While _ body orelse =>
      [mkLoopNode While
         (flat_map loops_of_stmt body ++ flat_map loops_of_stmt orelse)]
  | ast.FunctionDef _ body => flat_map loops_of_stmt body
  | ast.AsyncFunctionDef _ body => flat_map loops_of_stmt body
  | ast.ClassDef _ body => flat_map loops_of_stmt body
  | ast.AsyncFor _ _ body orelse =>
      flat_map loops_of_stmt body ++ flat_map loops_of_stmt orelse
  | ast.If _ body orelse =>
      flat_map loops_of_stmt body ++ flat_map loops_of_stmt orelse
  | ast.With _ body => flat_map loops_of_stmt body
  | ast.AsyncWith _ body => flat_map loops_of_stmt body
  | ast.Match _ cases => flat_map (flat_map loops_of_stmt) cases
  | ast.Try body handlers orelse finalbody =>
      flat_map loops_of_stmt body ++
      flat_map (flat_map loops_of_stmt) handlers ++
      flat_map loops_of_stmt orelse ++
      flat_map loops_of_stmt finalbody
  | ast.Return _ | ast.Assign _ _ | ast.Expr _
  | ast.Pass | ast.Break | ast.Continue => []
  end.

Definition loops_of_module (body : ast.module) : LoopNode :=
  mkLoopNode Root (flat_map loops_of_stmt body).

(** The greatest depth of a node of the tree, the node [t] itself lying at
    depth [d]. *)
Fixpoint deepest (d : nat) (t : LoopNode) : nat :=
  match t with
  | mkLoopNode _ ch => fold_right Nat.max d (List.map (deepest (S d)) ch)
  end.

(** Depth of a loop tree, its root counted as depth zero. *)
Definition tree_depth (t : LoopNode) : nat := deepest 0 t.

(** The nesting of [for] and [while] statements: such a statement is one
    level deeper than the deepest nesting found in its body and in its
    [else] clause; any other statement, [async for] among them, is as deep
    as what its blocks hold. *)
Fixpoint stmt_nesting_depth (s : ast.stmt) : nat :=
  let block := fun b => list_max (List.map stmt_nesting_depth b) in
  match s with
  | ast.For _ _ body orelse => S (Nat.max (block body) (block orelse))
  | ast.While _ body orelse => S (Nat.max (block body) (block orelse))
  | ast.FunctionDef _ body => block body
  | ast.AsyncFunctionDef _ body => block body
  | ast.ClassDef _ body => block body
  | ast.AsyncFor _ _ body orelse => Nat.max (block body) (block orelse)
  | ast.If _ body orelse => Nat.max (block body) (block orelse)
  | ast.With _ body => block body
  | ast.AsyncWith _ body => block body
  | ast.Match _ cases => list_max (List.map block cases)
  | ast.Try body handlers orelse finalbody =>
      Nat.max (block body)
        (Nat.max (list_max (List.map block handlers))
           (Nat.max (block orelse) (block finalbody)))
  | ast.Return _ | ast.Assign _ _ | ast.Expr _
  | ast.Pass | ast.Break | ast.Continue => 0
  end.

(** The deepest nesting of [for] and [while] statements in a module. *)
Definition loop_nesting_depth (body : ast.module) : nat :=
  list_max (List.map stmt_nesting_depth body).

(** The cost expressions of the specification, as a structure: the identity
    ["1"], a length term, the unknown marker ["?"], sums and products. *)
Inductive cost_expr : Type :=
| Identity
| LengthOf (name : string)
| Unknown
| Sum (a b : cost_expr)
| Product (a b : cost_expr).

(** The text of a structural cost expression: a sum is written with
    [" + "], a product with its right operand in parentheses. *)
Fixpoint render (e : cost_expr) : string :=
  match e with
  | Identity => "1"
  | LengthOf name => len_of name
  | Unknown => "?"
  | Sum a b => render a ++ " + " ++ render b
  | Product a b => render a ++ "*(" ++ render b ++ ")"
  end.

(** [s] ends with a closing parenthesis. *)
Fixpoint ends_with_rparen (s : string) : bool :=
  match s with
  | EmptyString => false
  | String c EmptyString => Ascii.eqb c ")"
  | String _ rest => ends_with_rparen rest
  end.

(** [s] without its prefix [p], when it starts with [p]. *)
Fixpoint strip_prefix (p s : string) : option string :=
  match p, s with
  | EmptyString, _ => Some s
  | String a p', String b s' =>
      if Ascii.eqb a b then strip_prefix p' s' else None
  | String _ _, EmptyString => None
  end.

(** [s] is one of the classifier's tags: ["c"] or ["len(...)"]. *)
Definition is_tag (s : string) : bool :=
  String.eqb s "c" ||
  match strip_prefix "len(" s with
  | Some rest => ends_with_rparen rest
  | None => false
  end.

(** Every [For] node of the tree carries a tag. *)
Fixpoint well_tagged (t : LoopNode) : bool :=
  match t with
  | mkLoopNode k ch =>
      match k with For it => is_tag it | _ => true end
      && forallb well_tagged ch
  end.

(** The sum of the root: costs equal to ["1"] dropped, ["1"] when nothing
    is left (lines 165-169). *)
Definition root_sum (costs : list string) : string :=
  match List.filter not_one costs with
  | [] => "1"
  | c :: cs => String.concat " + " (c :: cs)
  end.

(** The cost of a [For] node in the words of the specification: [inner] is
    the root's sum of the children's costs, ["1"] without children. *)
Definition for_cost_as_specified (factor : string) (child_costs : list string) : string :=
  let factor_expr := if String.eqb factor "c" then "1" else factor in
  let inner := match child_costs with [] => "1" | _ => root_sum child_costs end in
  if String.eqb inner "1" then factor_expr
  else if String.eqb factor_expr "1" then inner
  else factor_expr ++ "*(" ++ inner ++ ")".

(** The tag of a call to [len] in the words of the specification: the
    identifier when it is the sole argument, [len(other)] otherwise. *)
Definition len_tag_as_specified (args : list ast.expr) : string :=
  match args with
  | [ast.Name id] => len_of id
  | _ => "len(other)"
  end.

(** The tag of the first argument of [range] that is no literal, in the
    words of the specification. *)
Definition range_arg_tag_as_specified (arg : ast.expr) : string :=
  match arg with
  | ast.Name id => len_of id
  | ast.Call (ast.Name fid) args _ =>
      if String.eqb fid "len" then len_tag_as_specified args else "len(other)"
  | _ => "len(other)"
  end.

(** [for i in n:] with two loops over list displays in its body. *)
Definition two_constant_loops : ast.module :=
  [ ast.For (ast.Name "i") (ast.Name "n")
      [ ast.For (ast.Name "j")
          (ast.List [ast.Constant (ast.CInt 1); ast.Constant (ast.CInt 2)])
          [ast.Pass] [];
        ast.For (ast.Name "k") (ast.List [ast.Constant (ast.CInt 3)])
          [ast.Pass] [] ]
      [] ].

(** The call [len(x, y)]. *)
Definition len_x_y : ast.expr :=
  ast.Call (ast.Name "len") [ast.Name "x"; ast.Name "y"] [].

(** The deepest node below siblings lying at depth [S d], and at least
    [d]: the fold in [deepest]. *)
Definition forest_deepest (d : nat) (ts : list LoopNode) : nat :=
  fold_right Nat.max d (List.map (deepest (S d)) ts).

(** [c] is the text of a structural cost expression. *)
Definition rendered (c : string) : Prop := exists e, c = render e.

(** A root over a [for] loop on [n] with a constant loop in it, and a
    [while] loop with a [for] loop on an unnamed source in it. *)
Definition tagged_tree : LoopNode :=
  mkLoopNode Root
    [ mkLoopNode (For "len(n)") [mkLoopNode (For "c") []];
      mkLoopNode While [mkLoopNode (For "len(other)") []] ].

(** ** The store: how the visitor's mutations add up to a tree *)

(** [reifies h a t]: in store [h], the object at address [a] and the
    objects reachable from it form the tree [t]; children were allocated
    after their parent. *)
Inductive reifies (h : list LoopNodeObj) : nat -> LoopNode -> Prop :=
| reifies_node a k cs ts :
    h !! a = Some (mkObj k cs) ->
    Forall (lt a) cs ->
    Forall2 (reifies h) cs ts ->
    reifies h a (mkLoopNode k ts).

(** [extends h a ts h']: from [h] to [h'] the object at [a] gained
    children that reify [ts], every other object of [h] is unchanged, and
    all that is new lies beyond [h]. *)
Definition extends (h : list LoopNodeObj) (a : nat) (ts : list LoopNode)
    (h' : list LoopNodeObj) : Prop :=
  exists k cs0 cs,
    h !! a = Some (mkObj k cs0) /\
    h' !! a = Some (mkObj k (cs0 ++ cs)) /\
    length h <= length h' /\
    (forall b, b < length h -> b <> a -> h' !! b = h !! b) /\
    Forall (le (length h)) cs /\
    Forall2 (reifies h') cs ts.

(** What a computation of the visitor does when it runs with [a] on top of
    the stack: it succeeds, restores the stack and extends the store. *)
Definition visit_spec (m : M unit) (ts : list LoopNode) : Prop :=
  forall h r st a,
    is_Some (h !! a) ->
    exists h',
      m (mkState h r (st ++ [a])) = Some (tt, mkState h' r (st ++ [a])) /\
      extends h a ts h'.

(** ** 6. The serializer and the printer *)

(** The Python values [loop_to_dict] builds: [None], a [str], a [list] and
    a [dict], whose items are kept in insertion order. *)
Inductive pyvalue : Type :=
| PyNone
| PyStr (s : string)
| PyList (items : list pyvalue)
| PyDict (items : list (string * pyvalue)).

(** [loop_to_dict], lines 95-106.  The key ["children"] is created with an
    empty list and then assigned, which keeps its place among the keys. *)
Fixpoint loop_to_dict (loop_node : LoopNode) : pyvalue :=
  match loop_node with
  | mkLoopNode k children =>
      let ch := PyList (List.map loop_to_dict children) in
      match k with
      | Root => PyDict [("node", PyStr "Global Root"); ("children", ch)]
      | For it =>
          PyDict [("node", PyStr "For"); ("iterable", PyStr it); ("children", ch)]
      | While =>
          PyDict [("node", PyStr "While"); ("iterable", PyNone); ("children", ch)]
      end
  end.

(** [" " * indent] *)
Fixpoint spaces (indent : nat) : string :=
  match indent with
  | O => EmptyString
  | S n => String " " (spaces n)
  end.

(** [print_loop_tree], lines 206-215: the lines it prints, in order. *)
Fixpoint print_loop_tree (node : LoopNode) (indent : nat) : list string :=
  match node with
  | mkLoopNode k children =>
      let spacing := spaces indent in
      let line :=
        (match k with
         | Root => spacing ++ "Global Root"
         | For it => spacing ++ "For (iterable: " ++ it ++ ")"
         | While => spacing ++ "While"
         end)%string in
      line :: flat_map (fun child => print_loop_tree child (indent + 4)) children
  end.

(** ** 7. Measures and predicates for the further properties *)

(** The number of blanks a line starts with. *)
Fixpoint leading_spaces (s : string) : nat :=
  match s with
  | String c rest => if Ascii.eqb c " " then S (leading_spaces rest) else 0
  | EmptyString => 0
  end.

(** The number of nodes of a tree. *)
Fixpoint tree_size (t : LoopNode) : nat :=
  match t with
  | mkLoopNode _ ch => S (list_sum (List.map tree_size ch))
  end.

(** The number of [for] and [while] statements in a statement, at any
    depth. *)
Fixpoint count_loops (s : ast.stmt) : nat :=
  let block := fun b => list_sum (List.map count_loops b) in
  match s with
  | ast.For _ _ body orelse => S (block body + block orelse)
  | ast.While _ body orelse => S (block body + block orelse)
  | ast.FunctionDef _ body => block body
  | ast.AsyncFunctionDef _ body => block body
  | ast.ClassDef _ body => block body
  | ast.AsyncFor _ _ body orelse => block body + block orelse
  | ast.If _ body orelse => block body + block orelse
  | ast.With _ body => block body
  | ast.AsyncWith _ body => block body
  | ast.Match _ cases => list_sum (List.map block cases)
  | ast.Try body handlers orelse finalbody =>
      block body + list_sum (List.map block handlers)
      + block orelse + block finalbody
  | ast.Return _ | ast.Assign _ _ | ast.Expr _
  | ast.Pass | ast.Break | ast.Continue => 0
  end.

Definition count_loops_module (body : ast.module) : nat :=
  list_sum (List.map count_loops body).

(** Every node of the tree has a kind that [p] accepts. *)
Fixpoint all_nodes (p : loop_kind -> bool) (t : LoopNode) : bool :=
  match t with
  | mkLoopNode k ch => p k && forallb (all_nodes p) ch
  end.

(** The kind of a loop: anything but the root. *)
Definition is_loop_kind (k : loop_kind) : bool :=
  match k with Root => false | _ => true end.


(** The iteration sources the classifier calls constant: a literal, a
    display, or a call of the name [range] on literals only. *)
Definition is_constant_source (e : ast.expr) : bool :=
  is_literal_or_container e ||
  match e with
  | ast.Call (ast.Name fname) args _ =>
      String.eqb fname "range" && forallb is_Constant args
  | _ => false
  end.

(** One visitor used for two modules in turn:
    [v = LoopTreeVisitor(); v.visit(first); v.visit(second)]. *)
Definition run_visitor_twice (h : list LoopNodeObj) (first second : ast.module)
    : option state :=
  match (visit_Module first ;;; visit_Module second) (LoopTreeVisitor h) with
  | Some (_, s) => Some s
  | None => None
  end.

(** The children of the root a module builds; [[]] stands in where the
    builder gives no tree. *)
Definition built_children (body : ast.module) : list LoopNode :=
  match build_loop_tree body with
  | Some (mkLoopNode _ ch) => ch
  | None => []
  end.

(** A computation of the visitor that, when it succeeds, leaves [n] more
    objects in the store than it found. *)
Definition allocates (m : M unit) (n : nat) : Prop :=
  forall s s', m s = Some (tt, s') -> length (store s') = length (store s) + n.

(** ** 8. The specification's readings, and the interpreter's limit *)

(** Loop nesting in the source in the words of the specification: the
    loops are the [for], [async for] and [while] statements; a loop inside
    the body of another loop is nested in it, whatever statements lie in
    between; the [else] clause of a loop comes after the loop and stands
    at the loop's own level. *)
Fixpoint source_stmt_nesting (s : ast.stmt) : nat :=
  let block := fun b => list_max (List.map source_stmt_nesting b) in
  match s with
  | ast.For _ _ body orelse => Nat.max (S (block body)) (block orelse)
  | ast.AsyncFor _ _ body orelse => Nat.max (S (block body)) (block orelse)
  | ast.While _ body orelse => Nat.max (S (block body)) (block orelse)
  | ast.FunctionDef _ body => block body
  | ast.AsyncFunctionDef _ body => block body
  | ast.ClassDef _ body => block body
  | ast.If _ body orelse => Nat.max (block body) (block orelse)
  | ast.With _ body => block body
  | ast.AsyncWith _ body => block body
  | ast.Match _ cases => list_max (List.map block cases)
  | ast.Try body handlers orelse finalbody =>
      Nat.max (block body)
        (Nat.max (list_max (List.map block handlers))
           (Nat.max (block orelse) (block finalbody)))
  | ast.Return _ | ast.Assign _ _ | ast.Expr _
  | ast.Pass | ast.Break | ast.Continue => 0
  end.

Definition source_nesting_depth (body : ast.module) : nat :=
  list_max (List.map source_stmt_nesting body).

(** [async def f(): async for x in xs: for y in ys: pass]: a [for] loop in
    the body of an [async for] loop. *)
Definition for_in_async_for : ast.module :=
  [ ast.AsyncFunctionDef "f"
      [ ast.AsyncFor (ast.Name "x") (ast.Name "xs")
          [ ast.For (ast.Name "y") (ast.Name "ys") [ast.Pass] [] ]
          [] ] ].

(** [for x in xs: pass] with [else: for y in ys: pass]: a loop in the
    [else] clause of a loop. *)
Definition for_in_else_clause : ast.module :=
  [ ast.For (ast.Name "x") (ast.Name "xs")
      [ast.Pass]
      [ ast.For (ast.Name "y") (ast.Name "ys") [ast.Pass] [] ] ].

(** The cost of a [While] node in the words of the specification: [inner]
    follows the convention of the [For] node, the root's sum of the
    children's costs, ["1"] without children. *)
Definition while_cost_as_specified (child_costs : list string) : string :=
  let inner := match child_costs with [] => "1" | _ => root_sum child_costs end in
  if String.eqb inner "1" then "?" else "?*(" ++ inner ++ ")".

(** [while busy:] with two loops over list displays in its body. *)
Definition two_constant_loops_in_while : ast.module :=
  [ ast.While (ast.Name "busy")
      [ ast.For (ast.Name "j")
          (ast.List [ast.Constant (ast.CInt 1); ast.Constant (ast.CInt 2)])
          [ast.Pass] [];
        ast.For (ast.Name "k") (ast.List [ast.Constant (ast.CInt 3)])
          [ast.Pass] [] ]
      [] ].
















(** ** Induction principles for the two nested trees *)

Lemma LoopNode_ind' (P : LoopNode -> Prop) :
  (forall k ch, Forall P ch -> P (mkLoopNode k ch)) ->
  forall t, P t.
Proof.
  intros step. fix IH 1. intros [k ch]. apply step.
  induction ch as [|c ch IHch]; constructor; [apply IH | exact IHch].
Qed.

Lemma stmt_ind' (P : ast.stmt -> Prop) :
  (forall name body, Forall P body -> P (ast.FunctionDef name body)) ->
  (forall name body, Forall P body -> P (ast.AsyncFunctionDef name body)) ->
  (forall name body, Forall P body -> P (ast.ClassDef name body)) ->
  (forall value, P (ast.Return value)) ->
  (forall targets value, P (ast.Assign targets value)) ->
  (forall target iter body orelse,
      Forall P body -> Forall P orelse -> P (ast.For target iter body orelse)) ->
  (forall target iter body orelse,
      Forall P body -> Forall P orelse ->
      P (ast.AsyncFor target iter body orelse)) ->
  (forall test body orelse,
      Forall P body -> Forall P orelse -> P (ast.While test body orelse)) ->
  (forall test body orelse,
      Forall P body -> Forall P orelse -> P (ast.If test body orelse)) ->
  (forall items body, Forall P body -> P (ast.With items body)) ->
  (forall items body, Forall P body -> P (ast.AsyncWith items body)) ->
  (forall subject cases, Forall (Forall P) cases -> P (ast.Match subject cases)) ->
  (forall body handlers orelse finalbody,
      Forall P body -> Forall (Forall P) handlers ->
      Forall P orelse -> Forall P finalbody ->
      P (ast.Try body handlers orelse finalbody)) ->
  (forall value, P (ast.Expr value)) ->
  P ast.Pass -> P ast.Break -> P ast.Continue ->
  forall s, P s.
Proof.
  intros HF HAF HC HR HA HFor HAFor HWh HIf HWi HAWi HM HTry HE HP HB HCo.
  fix IH 1.
  assert (blk : forall b : list ast.stmt, Forall P b).
  { induction b as [|x b IHb]; constructor; [apply IH | exact IHb]. }
  assert (blks : forall bs : list (list ast.stmt), Forall (Forall P) bs).
  { induction bs as [|b bs IHbs]; constructor; [apply blk | exact IHbs]. }
  intros [name body|name body|name body|value|targets value
         |target iter body orelse|target iter body orelse
         |test body orelse|test body orelse|items body|items body
         |subject cases|body handlers orelse finalbody|value| | |].
  - apply HF, blk.
  - apply HAF, blk.
  - apply HC, blk.
  - apply HR.
  - apply HA.
  - apply HFor; apply blk.
  - apply HAFor; apply blk.
  - apply HWh; apply blk.
  - apply HIf; apply blk.
  - apply HWi, blk.
  - apply HAWi, blk.
  - apply HM, blks.
  - apply HTry; first [apply blk | apply blks].
  - apply HE.
  - apply HP.
  - apply HB.
  - apply HCo.
Qed.

Section StoreReasoning.

Implicit Types (h : list LoopNodeObj) (a b c : nat) (t : LoopNode).

Lemma reifies_stable t : forall h h' a,
  reifies h a t ->
  (forall b o, a <= b -> h !! b = Some o -> h' !! b = Some o) ->
  reifies h' a t.
Proof.
  induction t as [k ch IH] using LoopNode_ind'.
  intros h h' a R same. inversion R as [a' k' cs ts Hl Hlt Hcs]; subst.
  apply reifies_node with (cs := cs); [apply same; [lia | exact Hl] | exact Hlt |].
  clear Hl R.
  induction Hcs as [|c t cs ts Hc Hcs IHcs]; constructor.
  - inversion IH as [|? ? Ht _]; subst.
    inversion Hlt as [|? ? Hac _]; subst.
    apply (Ht h h' c Hc). intros b o Hb. apply same. lia.
  - inversion IH; subst. inversion Hlt; subst. apply IHcs; assumption.
Qed.

Lemma Forall2_reifies_stable h h' n cs ts :
  Forall (le n) cs ->
  Forall2 (reifies h) cs ts ->
  (forall b o, n <= b -> h !! b = Some o -> h' !! b = Some o) ->
  Forall2 (reifies h') cs ts.
Proof.
  intros Hn H2 same. induction H2 as [|c t cs ts Hc _ IH]; constructor.
  - inversion Hn; subst. apply (reifies_stable t h h' c Hc).
    intros b o Hb. apply same. lia.
  - inversion Hn; subst. apply IH. assumption.
Qed.

(** Enough fuel reads the tree back. *)
Lemma read_tree_enough t : forall h a fuel,
  reifies h a t -> length h <= fuel + a -> read_tree fuel h a = Some t.
Proof.
  induction t as [k ch IH] using LoopNode_ind'.
  intros h a fuel R Hfuel. inversion R as [a' k' cs ts Hl Hlt Hcs]; subst.
  pose proof (lookup_lt_Some _ _ _ Hl) as Ha.
  destruct fuel as [|fuel]; [lia|]. simpl. rewrite Hl. simpl.
  assert (mapM (read_tree fuel h) cs = Some ch) as ->; [|reflexivity].
  apply mapM_Some. clear Hl R.
  induction Hcs as [|c t cs ts Hc Hcs IHcs]; constructor.
  - inversion IH as [|? ? Ht _]; subst. inversion Hlt; subst.
    apply Ht; [exact Hc | lia].
  - inversion IH; subst. inversion Hlt; subst. apply IHcs; assumption.
Qed.

Lemma extends_refl h a : is_Some (h !! a) -> extends h a [] h.
Proof.
  intros [[k cs0] Hl]. exists k, cs0, [].
  rewrite app_nil_r. repeat split; auto.
Qed.

Lemma extends_is_Some h a ts h' : extends h a ts h' -> is_Some (h' !! a).
Proof. intros (k & cs0 & cs & _ & Hl & _). eauto. Qed.

Lemma extends_trans h h1 h2 a ts1 ts2 :
  extends h a ts1 h1 -> extends h1 a ts2 h2 -> extends h a (ts1 ++ ts2) h2.
Proof.
  intros (k & cs0 & cs1 & Hl & Hl1 & Hlen1 & Hsame1 & Hnew1 & Hre1)
         (k' & cs0' & cs2 & Hl1' & Hl2 & Hlen2 & Hsame2 & Hnew2 & Hre2).
  rewrite Hl1 in Hl1'. injection Hl1' as <- <-.
  pose proof (lookup_lt_Some _ _ _ Hl) as Ha.
  exists k, cs0, (cs1 ++ cs2). repeat split.
  - exact Hl.
  - rewrite Hl2. by rewrite <- app_assoc.
  - lia.
  - intros b Hb Hne. rewrite Hsame2; [apply Hsame1; assumption | lia | exact Hne].
  - apply Forall_app. split; [exact Hnew1|].
    eapply Forall_impl; [exact Hnew2|]. simpl. intros; lia.
  - apply Forall2_app; [|exact Hre2].
    apply (Forall2_reifies_stable h1 h2 (length h) cs1 ts1 Hnew1 Hre1).
    intros b o Hb Hlb. rewrite Hsame2; [exact Hlb | | lia].
    exact (lookup_lt_Some _ _ _ Hlb).
Qed.

Lemma visit_spec_ret : visit_spec (ret tt) [].
Proof.
  intros h r st a Ha. exists h. split; [reflexivity | by apply extends_refl].
Qed.

Lemma visit_spec_seq m1 m2 ts1 ts2 :
  visit_spec m1 ts1 -> visit_spec m2 ts2 ->
  visit_spec (m1 ;;; m2) (ts1 ++ ts2).
Proof.
  intros H1 H2 h r st a Ha.
  destruct (H1 h r st a Ha) as (h1 & E1 & X1).
  destruct (H2 h1 r st a (extends_is_Some _ _ _ _ X1)) as (h2 & E2 & X2).
  exists h2. split; [|eapply extends_trans; eassumption].
  unfold bind. rewrite E1. exact E2.
Qed.

Lemma visit_spec_for_each {A : Type} (f : A -> M unit) (g : A -> list LoopNode)
    (xs : list A) :
  Forall (fun x => visit_spec (f x) (g x)) xs ->
  visit_spec (for_each f xs) (flat_map g xs).
Proof.
  induction 1 as [|x xs Hx _ IH]; simpl.
  - apply visit_spec_ret.
  - apply visit_spec_seq; assumption.
Qed.

End StoreReasoning.

Section VisitorCorrect.

Lemma stack_pop_snoc h r st n :
  stack_pop (mkState h r (st ++ [n])) = Some (tt, mkState h r st).
Proof.
  unfold stack_pop. simpl. rewrite removelast_last.
  destruct st; reflexivity.
Qed.

Lemma visit_spec_enter_loop visit k body orelse tb to :
  visit_spec (for_each visit body) tb ->
  visit_spec (for_each visit orelse) to ->
  visit_spec (enter_loop visit k body orelse) [mkLoopNode k (tb ++ to)].
Proof.
  intros Hb Ho h r st a [[ka csa] Ha].
  pose proof (lookup_lt_Some _ _ _ Ha) as Hlt.
  set (n := length h).
  set (h1 := h ++ [mkObj k []]).
  set (h2 := <[a := mkObj ka (csa ++ [n])]> h1).
  assert (Hn2 : h2 !! n = Some (mkObj k [])).
  { unfold h2. rewrite list_lookup_insert_ne by (unfold n; lia).
    unfold h1, n. apply list_lookup_middle. reflexivity. }
  assert (Ha2 : h2 !! a = Some (mkObj ka (csa ++ [n]))).
  { unfold h2. apply list_lookup_insert_eq. unfold h1. rewrite length_app. lia. }
  assert (Hlen2 : length h2 = S n).
  { unfold h2, h1. rewrite length_insert, length_app. simpl. unfold n. lia. }
  destruct (Hb h2 r (st ++ [a]) n (ex_intro _ _ Hn2)) as (h3 & E3 & X3).
  destruct (Ho h3 r (st ++ [a]) n (extends_is_Some _ _ _ _ X3)) as (h4 & E4 & X4).
  pose proof (extends_trans _ _ _ _ _ _ X3 X4) as X.
  destruct X as (k' & cs0 & cs & Hl2 & Hl4 & Hlen4 & Hsame & Hnew & Hre).
  rewrite Hn2 in Hl2. injection Hl2 as <- <-. simpl in Hl4.
  exists h4. split.
  - unfold enter_loop, bind, new_LoopNode, stack_top, children_append,
      stack_append. simpl.
    rewrite last_snoc. cbn [store root loop_stack]. fold n h1.
    assert (h1 !! a = Some (mkObj ka csa)) as ->.
    { unfold h1. rewrite lookup_app_l by exact Hlt. exact Ha. }
    cbn [store root loop_stack obj_kind obj_children]. fold h2.
    rewrite E3, E4. apply stack_pop_snoc.
  - exists ka, csa, [n]. repeat split.
    + exact Ha.
    + rewrite Hsame; [exact Ha2 | lia | unfold n; lia].
    + fold n. lia.
    + intros b Hb' Hne. rewrite Hsame by (fold n in Hb'; lia).
      unfold h2. rewrite list_lookup_insert_ne by congruence.
      unfold h1. apply lookup_app_l. exact Hb'.
    + constructor; [fold n; lia | constructor].
    + constructor; [|constructor].
      apply reifies_node with (cs := cs); [exact Hl4 | | exact Hre].
      eapply Forall_impl; [exact Hnew|]. simpl. intros; lia.
Qed.

(** The visitor builds, below the node on top of its stack, exactly the
    loop nodes of the statement, and never fails. *)
Lemma visit_correct (s : ast.stmt) : visit_spec (visit s) (loops_of_stmt s).
Proof.
  induction s using stmt_ind'; simpl;
    try apply visit_spec_ret;
    repeat first
      [ apply visit_spec_enter_loop
      | apply visit_spec_seq
      | apply visit_spec_for_each; try assumption ].
  all: eapply Forall_impl; [eassumption|]; simpl;
    intros hd Hhd; apply visit_spec_for_each; exact Hhd.
Qed.

Lemma visit_Module_correct (body : ast.module) :
  visit_spec (visit_Module body) (flat_map loops_of_stmt body).
Proof.
  apply visit_spec_for_each, Forall_forall. intros s _. apply visit_correct.
Qed.

(** A fresh visitor run in any store: it succeeds, its root is the new
    object, the root reifies the loops of the module, and the objects
    that were in the store are untouched. *)
Lemma run_visitor_correct (h : list LoopNodeObj) (body : ast.module) :
  exists s,
    run_visitor h body = Some s /\
    root s = length h /\
    loop_stack s = [length h] /\
    reifies (store s) (root s) (loops_of_module body) /\
    (forall b, b < length h -> store s !! b = h !! b).
Proof.
  assert (Hr : (h ++ [mkObj Root []]) !! length h = Some (mkObj Root [])).
  { apply list_lookup_middle. reflexivity. }
  destruct (visit_Module_correct body (h ++ [mkObj Root []]) (length h) []
              (length h) (ex_intro _ _ Hr)) as (h' & E & X).
  destruct X as (k & cs0 & cs & Hl & Hl' & Hlen & Hsame & Hnew & Hre).
  rewrite Hr in Hl. injection Hl as <- <-. simpl in Hl'.
  rewrite length_app in Hsame, Hnew, Hlen. simpl in Hsame, Hnew, Hlen.
  exists (mkState h' (length h) [length h]). repeat split.
  - unfold run_visitor, LoopTreeVisitor. simpl in E. rewrite E. reflexivity.
  - simpl. apply reifies_node with (cs := cs); [exact Hl' | | exact Hre].
    eapply Forall_impl; [exact Hnew|]. simpl. intros; lia.
  - intros b Hb. simpl. rewrite Hsame by lia. apply lookup_app_l. exact Hb.
Qed.

Lemma root_tree_reifies (s : state) (t : LoopNode) :
  reifies (store s) (root s) t -> root_tree s = Some t.
Proof. intros R. apply read_tree_enough; [exact R | lia]. Qed.

(** The builder is total and its tree is [loops_of_module]. *)
Lemma build_loop_tree_correct (body : ast.module) :
  build_loop_tree body = Some (loops_of_module body).
Proof.
  unfold build_loop_tree.
  destruct (run_visitor_correct [] body) as (s & E & _ & _ & R & _).
  rewrite E. apply root_tree_reifies. exact R.
Qed.

End VisitorCorrect.

(** ** The classifier *)

Section Classifier.

Implicit Types (arg : ast.expr) (args pre post : list ast.expr).

Lemma scan_range_args_skips pre arg post :
  forallb is_Constant pre = true ->
  is_Constant arg = false ->
  scan_range_args (pre ++ arg :: post) = classify_range_arg arg.
Proof.
  intros Hpre Harg. induction pre as [|p pre IH]; simpl.
  - rewrite Harg. reflexivity.
  - simpl in Hpre. apply andb_prop in Hpre as [Hp Hpre].
    rewrite Hp. simpl. apply IH, Hpre.
Qed.

(** [range] over literals only is constant. *)
Lemma range_all_literal args kw :
  forallb is_Constant args = true ->
  extract_iterable (ast.Call (ast.Name "range") args kw) = "c".
Proof. intros H. unfold extract_iterable. simpl. rewrite H. reflexivity. Qed.

(** [range] is classified by its first argument that is no literal; what
    follows that argument plays no part. *)
Lemma range_first_nonliteral pre arg post kw :
  forallb is_Constant pre = true ->
  is_Constant arg = false ->
  extract_iterable (ast.Call (ast.Name "range") (pre ++ arg :: post) kw)
  = classify_range_arg arg.
Proof.
  intros Hpre Harg. unfold extract_iterable. simpl.
  assert (forallb is_Constant (pre ++ arg :: post) = false) as ->.
  { rewrite forallb_app. simpl. rewrite Harg.
    rewrite andb_false_r. reflexivity. }
  apply scan_range_args_skips; assumption.
Qed.

Lemma range_later_args_ignored pre arg post post' kw kw' :
  forallb is_Constant pre = true ->
  is_Constant arg = false ->
  extract_iterable (ast.Call (ast.Name "range") (pre ++ arg :: post) kw)
  = extract_iterable (ast.Call (ast.Name "range") (pre ++ arg :: post') kw').
Proof.
  intros Hpre Harg.
  rewrite !range_first_nonliteral by assumption. reflexivity.
Qed.

(** Where the first argument of [range] that is no literal is neither a
    call to [len] with more than one argument nor anything the
    specification sends elsewhere, code and specification agree. *)
Lemma classify_range_arg_sole_len id kw :
  classify_range_arg (ast.Call (ast.Name "len") [ast.Name id] kw) = len_of id.
Proof. reflexivity. Qed.

Lemma classify_range_arg_name id :
  classify_range_arg (ast.Name id) = len_of id.
Proof. reflexivity. Qed.

End Classifier.

(** C3. At [range(1, len(x, y), m)] the first argument that is no literal is
    a call to [len] with two arguments: the specification sends it to
    [len(other)], the classifier answers [len(x)]. *)
Theorem range_len_two_args :
  extract_iterable
    (ast.Call (ast.Name "range")
       [ast.Constant (ast.CInt 1); len_x_y; ast.Name "m"] []) = "len(x)"
  /\ range_arg_tag_as_specified len_x_y = "len(other)".
Proof. split; reflexivity. Qed.

(** C4. With [len(x, y)] as the iteration source the identifier [x] is not
    the sole argument: the specification asks for [len(other)], the
    classifier answers [len(x)], and the same under [range]. *)
Theorem len_two_args :
  extract_iterable len_x_y = "len(x)"
  /\ extract_iterable (ast.Call (ast.Name "range") [len_x_y] []) = "len(x)"
  /\ len_tag_as_specified [ast.Name "x"; ast.Name "y"] = "len(other)".
Proof. repeat split; reflexivity. Qed.

(** C10. A list, tuple, set or dict display is constant whatever its
    elements are: only the kind of the outer node is looked at. *)
Theorem display_is_constant :
  forall (elts : list ast.expr) (keys : list (option ast.expr))
         (values : list ast.expr),
    extract_iterable (ast.List elts) = "c"
    /\ extract_iterable (ast.Tuple elts) = "c"
    /\ extract_iterable (ast.Set_ elts) = "c"
    /\ extract_iterable (ast.Dict keys values) = "c".
Proof. intros. repeat split; reflexivity. Qed.

(** A list display of a call and an identifier, [[f(n), xs]]. *)
Example display_of_calls_is_constant :
  extract_iterable
    (ast.List [ast.Call (ast.Name "f") [ast.Name "n"] []; ast.Name "xs"]) = "c".
Proof. reflexivity. Qed.

(** ** The evaluator *)

Section Evaluator.

Implicit Types (t : LoopNode) (ch : list LoopNode) (s : string).

Lemma filter_not_one_nil (costs : list string) :
  List.filter not_one costs = [] <-> forallb is_one costs = true.
Proof.
  unfold not_one, is_one. induction costs as [|c costs IH]; simpl; [tauto|].
  destruct (String.eqb c "1"); simpl; [exact IH | split; discriminate].
Qed.

Lemma root_cost_eq ch :
  compute_complexity (mkLoopNode Root ch)
  = root_sum (List.map compute_complexity ch).
Proof.
  simpl. unfold root_sum.
  destruct (List.filter not_one (List.map compute_complexity ch)); reflexivity.
Qed.

Lemma constant_leaves_cost (n : nat) :
  List.map compute_complexity (repeat (mkLoopNode (For "c") []) n)
  = repeat "1" n.
Proof. induction n as [|n IH]; simpl; [|rewrite IH]; reflexivity. Qed.

Lemma filter_not_one_repeat (n : nat) :
  List.filter not_one (repeat "1" n) = [].
Proof. induction n as [|n IH]; simpl; [reflexivity | exact IH]. Qed.

(** A sum of two or more costs is never ["1"]: the inner sum of a node is
    ["1"] only without children or over a single child that costs ["1"]. *)
Lemma inner_cost_one_iff (costs : list string) :
  inner_cost costs = "1" <-> costs = [] \/ costs = ["1"].
Proof.
  split.
  - destruct costs as [|c [|c' cs]]; simpl.
    + intros _. left. reflexivity.
    + intros ->. right. reflexivity.
    + intros H. exfalso.
      destruct c as [|a [|b c]]; simpl in H; try discriminate.
  - intros [->| ->]; reflexivity.
Qed.

Lemma for_cost_code (it : string) ch :
  compute_complexity (mkLoopNode (For it) ch)
  = let factor_expr := if String.eqb it "c" then "1" else it in
    let inner := inner_cost (List.map compute_complexity ch) in
    if String.eqb inner "1" then factor_expr
    else if String.eqb factor_expr "1" then inner
    else (factor_expr ++ "*(" ++ inner ++ ")")%string.
Proof. reflexivity. Qed.

Lemma filter_not_one_all (costs : list string) :
  forallb not_one costs = true -> List.filter not_one costs = costs.
Proof.
  induction costs as [|c costs IH]; simpl; [reflexivity|].
  intros H. apply andb_prop in H as [Hc H]. rewrite Hc, IH by exact H.
  reflexivity.
Qed.

(** Where a [For] node has at most one child, or no child costs ["1"],
    the evaluator gives the node the cost the specification describes. *)
Lemma for_cost_agrees (it : string) ch :
  length ch <= 1 \/ forallb not_one (List.map compute_complexity ch) = true ->
  compute_complexity (mkLoopNode (For it) ch)
  = for_cost_as_specified it (List.map compute_complexity ch).
Proof.
  rewrite for_cost_code. unfold for_cost_as_specified.
  intros [Hlen|Hall].
  - destruct ch as [|c [|c' ch]]; simpl in Hlen; [reflexivity| |lia].
    simpl. unfold root_sum. simpl.
    destruct (not_one (compute_complexity c)) eqn:E; [reflexivity|].
    unfold not_one in E. apply negb_false_iff, String.eqb_eq in E.
    rewrite E. reflexivity.
  - destruct (List.map compute_complexity ch) as [|c cs] eqn:E; [reflexivity|].
    unfold root_sum. rewrite (filter_not_one_all _ Hall). reflexivity.
Qed.

End Evaluator.

(** C2. The cost of the root is ["1"] when every child costs ["1"], and
    otherwise the children's costs other than ["1"], in order, joined by
    [" + "]; a root over any number of constant loops without nested
    loops, none included, costs ["1"]. *)
Theorem root_cost :
  forall (children : list LoopNode) (n : nat),
    let costs := List.map compute_complexity children in
    compute_complexity (mkLoopNode Root children)
    = (if forallb is_one costs then "1"
       else String.concat " + " (List.filter not_one costs))
    /\ compute_complexity
         (mkLoopNode Root (repeat (mkLoopNode (For "c") []) n)) = "1".
Proof.
  intros children n costs. split.
  - rewrite root_cost_eq. fold costs. unfold root_sum.
    destruct (forallb is_one costs) eqn:E.
    + apply filter_not_one_nil in E. rewrite E. reflexivity.
    + destruct (List.filter not_one costs) eqn:F; [|reflexivity].
      apply filter_not_one_nil in F. congruence.
  - rewrite root_cost_eq, constant_leaves_cost. unfold root_sum.
    rewrite filter_not_one_repeat. reflexivity.
Qed.

(** C1. In [for i in n:] over two loops on list displays the children cost
    ["1"] each.  The root's sum of these is ["1"], so the specification
    gives the node the cost [len(n)]; the evaluator joins both and answers
    [len(n)*(1 + 1)]. *)
Theorem for_inner_keeps_ones :
  build_loop_tree two_constant_loops
  = Some (mkLoopNode Root
            [mkLoopNode (For "len(n)")
               [mkLoopNode (For "c") []; mkLoopNode (For "c") []]])
  /\ compute_complexity
       (mkLoopNode (For "len(n)")
          [mkLoopNode (For "c") []; mkLoopNode (For "c") []])
     = "len(n)*(1 + 1)"
  /\ for_cost_as_specified "len(n)" ["1"; "1"] = "len(n)"
  /\ time_complexity two_constant_loops = Some "len(n)*(1 + 1)".
Proof. repeat split; vm_compute; reflexivity. Qed.

(** C6. The sample program: the nested loop costs ["1"], the outer loop
    [len(n)], the second loop [len(num)], the whole [len(n) + len(num)]. *)
Theorem sample_code_cost :
  let inner := mkLoopNode (For "c") [] in
  let outer := mkLoopNode (For "len(n)") [inner] in
  let second := mkLoopNode (For "len(num)") [] in
  build_loop_tree sample_code = Some (mkLoopNode Root [outer; second])
  /\ compute_complexity inner = "1"
  /\ compute_complexity outer = "len(n)"
  /\ compute_complexity second = "len(num)"
  /\ time_complexity sample_code = Some "len(n) + len(num)".
Proof. repeat split; vm_compute; reflexivity. Qed.

(** ** Depth of the tree and nesting in the source *)

Section Depth.

Lemma forest_deepest_ge d ts : d <= forest_deepest d ts.
Proof.
  unfold forest_deepest. induction ts as [|t ts IH]; simpl; lia.
Qed.

Lemma forest_deepest_app d ts1 ts2 :
  forest_deepest d (ts1 ++ ts2)
  = Nat.max (forest_deepest d ts1) (forest_deepest d ts2).
Proof.
  pose proof (forest_deepest_ge d ts2) as Hge. unfold forest_deepest in *.
  induction ts1 as [|t ts1 IH]; simpl; [lia|]. rewrite IH. lia.
Qed.

Lemma forest_deepest_single d k ch :
  forest_deepest d [mkLoopNode k ch] = forest_deepest (S d) ch.
Proof.
  pose proof (forest_deepest_ge (S d) ch) as Hge.
  unfold forest_deepest in *. simpl. lia.
Qed.

Lemma forest_deepest_block (f : ast.stmt -> list LoopNode)
    (g : ast.stmt -> nat) (b : list ast.stmt) :
  Forall (fun s => forall d, forest_deepest d (f s) = d + g s) b ->
  forall d, forest_deepest d (flat_map f b) = d + list_max (List.map g b).
Proof.
  induction 1 as [|s b Hs _ IH]; intros d; simpl.
  - unfold forest_deepest. simpl. lia.
  - rewrite forest_deepest_app, Hs, IH. lia.
Qed.

Lemma forest_deepest_blocks (f : ast.stmt -> list LoopNode)
    (g : ast.stmt -> nat) (bs : list (list ast.stmt)) :
  Forall (Forall (fun s => forall d, forest_deepest d (f s) = d + g s)) bs ->
  forall d,
    forest_deepest d (flat_map (flat_map f) bs)
    = d + list_max (List.map (fun b => list_max (List.map g b)) bs).
Proof.
  induction 1 as [|b bs Hb _ IH]; intros d; simpl.
  - unfold forest_deepest. simpl. lia.
  - rewrite forest_deepest_app, IH, (forest_deepest_block f g b Hb). lia.
Qed.

(** The loops of a statement hang as deep below their parent as the
    statement nests loops. *)
Lemma loops_of_stmt_depth (s : ast.stmt) :
  forall d, forest_deepest d (loops_of_stmt s) = d + stmt_nesting_depth s.
Proof.
  induction s using stmt_ind'; intros d; simpl;
    rewrite ?forest_deepest_single, ?forest_deepest_app;
    repeat match goal with
      | H : Forall (Forall _) _ |- _ =>
          rewrite (forest_deepest_blocks _ _ _ H); clear H
      | H : Forall _ _ |- _ =>
          rewrite (forest_deepest_block _ _ _ H); clear H
      end;
    rewrite ?forest_deepest_app;
    try (unfold forest_deepest; simpl); lia.
Qed.

Lemma loops_of_module_depth (body : ast.module) :
  tree_depth (loops_of_module body) = loop_nesting_depth body.
Proof.
  unfold tree_depth, loops_of_module, loop_nesting_depth. simpl.
  change (forest_deepest 0 (flat_map loops_of_stmt body)
          = list_max (List.map stmt_nesting_depth body)).
  rewrite (forest_deepest_block loops_of_stmt stmt_nesting_depth).
  - reflexivity.
  - apply Forall_forall. intros s _. apply loops_of_stmt_depth.
Qed.

End Depth.

(** C7, as amended.  The builder returns a tree for every module, and the
    depth of that tree, the root counted as depth zero, is the greatest
    nesting of [for] and [while] statements in the module, where such a
    statement in the body or in the [else] clause of another counts as
    nested in it whatever statements of other kinds lie in between;
    [async for] is among those other kinds and adds no level. *)
Theorem tree_depth_is_nesting_depth :
  forall body : ast.module,
    exists t : LoopNode,
      build_loop_tree body = Some t
      /\ tree_depth t = loop_nesting_depth body.
Proof.
  intros body. exists (loops_of_module body).
  split; [apply build_loop_tree_correct | apply loops_of_module_depth].
Qed.

(** C8. Two runs of a fresh visitor over the same module, the second in
    the store the first one left behind, build the same tree and the same
    cost expression, whatever the store held before; the second run leaves
    the tree of the first as it was. *)
Theorem pipeline_deterministic :
  forall (h : list LoopNodeObj) (body : ast.module),
    exists (s1 s2 : state) (t : LoopNode),
      run_visitor h body = Some s1
      /\ run_visitor (store s1) body = Some s2
      /\ root_tree s1 = Some t
      /\ root_tree s2 = Some t
      /\ read_tree (length (store s2)) (store s2) (root s1) = Some t
      /\ option_map compute_complexity (root_tree s1)
         = option_map compute_complexity (root_tree s2)
      /\ time_complexity body = Some (compute_complexity t).
Proof.
  intros h body.
  destruct (run_visitor_correct h body) as (s1 & E1 & R1 & _ & T1 & _).
  destruct (run_visitor_correct (store s1) body) as (s2 & E2 & R2 & _ & T2 & Same).
  exists s1, s2, (loops_of_module body).
  pose proof (root_tree_reifies s1 _ T1) as Q1.
  pose proof (root_tree_reifies s2 _ T2) as Q2.
  repeat split; try assumption.
  - apply read_tree_enough; [|lia].
    apply (reifies_stable _ (store s1)); [exact T1|].
    intros b o _ Hb. rewrite Same; [exact Hb|].
    exact (lookup_lt_Some _ _ _ Hb).
  - rewrite Q1, Q2. reflexivity.
  - unfold time_complexity. rewrite build_loop_tree_correct. reflexivity.
Qed.

(** ** Every tree has a cost expression *)

Section WellFormed.

Lemma strip_prefix_spec (p s r : string) :
  strip_prefix p s = Some r -> s = (p ++ r)%string.
Proof.
  revert s. induction p as [|a p IH]; intros s; simpl.
  - intros [= ->]. reflexivity.
  - destruct s as [|b s]; [discriminate|].
    destruct (Ascii.eqb a b) eqn:E; [|discriminate].
    apply Ascii.eqb_eq in E as ->. intros H. f_equal. apply IH, H.
Qed.

Lemma ends_with_rparen_spec (s : string) :
  ends_with_rparen s = true -> exists x, s = (x ++ ")")%string.
Proof.
  induction s as [|c s IH]; simpl; [discriminate|].
  destruct s as [|d s].
  - intros E. apply Ascii.eqb_eq in E as ->. exists "". reflexivity.
  - intros E. destruct (IH E) as [x Hx]. exists (String c x).
    simpl. rewrite <- Hx. reflexivity.
Qed.

Lemma is_tag_spec (s : string) :
  is_tag s = true -> s = "c" \/ exists x, s = len_of x.
Proof.
  unfold is_tag. intros H. apply orb_prop in H as [H|H].
  - left. apply String.eqb_eq, H.
  - right. destruct (strip_prefix "len(" s) as [rest|] eqn:E; [|discriminate].
    apply strip_prefix_spec in E. apply ends_with_rparen_spec in H as [x ->].
    exists x. exact E.
Qed.

Lemma concat_rendered (c : string) (cs : list string) :
  Forall rendered (c :: cs) -> rendered (String.concat " + " (c :: cs)).
Proof.
  revert c. induction cs as [|c' cs IH]; intros c H.
  - inversion H; subst. assumption.
  - inversion H as [|? ? [e ->] H']; subst.
    destruct (IH c' H') as [e' He'].
    exists (Sum e e'). simpl in *. rewrite He'. reflexivity.
Qed.

Lemma inner_cost_rendered (cs : list string) :
  Forall rendered cs -> rendered (inner_cost cs).
Proof.
  destruct cs as [|c cs]; intros H.
  - exists Identity. reflexivity.
  - apply concat_rendered, H.
Qed.

Lemma root_sum_rendered (cs : list string) :
  Forall rendered cs -> rendered (root_sum cs).
Proof.
  intros H. unfold root_sum.
  assert (F : Forall rendered (List.filter not_one cs)).
  { induction H as [|c cs Hc _ IH]; simpl; [constructor|].
    destruct (not_one c); [constructor|]; assumption. }
  destruct (List.filter not_one cs) as [|c l].
  - exists Identity. reflexivity.
  - apply concat_rendered, F.
Qed.

End WellFormed.


(** ** Further properties of the classifier *)

Section ClassifierRange.

Lemma ends_with_rparen_append (x : string) :
  ends_with_rparen (x ++ ")") = true.
Proof.
  induction x as [|c x IH]; [reflexivity|].
  simpl. destruct (x ++ ")")%string eqn:E; [|exact IH].
  destruct x; discriminate.
Qed.

Lemma is_tag_len_of (x : string) : is_tag (len_of x) = true.
Proof. unfold is_tag. simpl. apply ends_with_rparen_append. Qed.

Lemma len_of_not_c (x : string) : len_of x <> "c".
Proof. discriminate. Qed.

Lemma append_rparen_inj (a b : string) :
  (a ++ ")")%string = (b ++ ")")%string -> a = b.
Proof.
  revert b. induction a as [|c a IH]; intros [|d b] H; simpl in H.
  - reflexivity.
  - injection H as _ H. destruct b; discriminate.
  - injection H as _ H. destruct a; discriminate.
  - injection H as -> H. f_equal. apply IH, H.
Qed.

Lemma len_of_inj (a b : string) : len_of a = len_of b -> a = b.
Proof. unfold len_of. simpl. intros [= H]. apply append_rparen_inj, H. Qed.

Lemma classify_range_arg_len (arg : ast.expr) :
  exists id, classify_range_arg arg = len_of id.
Proof.
  unfold classify_range_arg.
  destruct arg; try (exists "other"; reflexivity); try (eexists; reflexivity).
  destruct (len_call_of_name _) as [id|];
    [exists id | exists "other"]; reflexivity.
Qed.

Lemma scan_range_args_len (args : list ast.expr) :
  exists id, scan_range_args args = len_of id.
Proof.
  induction args as [|arg args IH]; simpl.
  - exists "other". reflexivity.
  - destruct (is_Constant arg); simpl; [exact IH | apply classify_range_arg_len].
Qed.

(** The classifier answers ["c"] on a constant source and a [len(...)] text
    on every other expression. *)
Lemma extract_iterable_cases (e : ast.expr) :
  (is_constant_source e = true /\ extract_iterable e = "c")
  \/ (is_constant_source e = false /\ exists id, extract_iterable e = len_of id).
Proof.
  unfold is_constant_source, extract_iterable.
  destruct e as [v|elts|elts|elts|keys values|id|func args kw| | | | | | | |];
    simpl; try (left; split; reflexivity);
    try (right; split; [reflexivity | exists "other"; reflexivity]).
  - right. split; [reflexivity | exists id; reflexivity].
  - destruct func; simpl;
      try (right; split; [reflexivity | exists "other"; reflexivity]).
    destruct (String.eqb id "range"); simpl.
    + destruct (forallb is_Constant args); [left; split; reflexivity|].
      right. split; [reflexivity | apply scan_range_args_len].
    + right. split; [reflexivity|].
      destruct (String.eqb id "len"); [|exists "other"; reflexivity].
      destruct args as [|[] ?]; try (exists "other"; reflexivity).
      eexists; reflexivity.
Qed.

End ClassifierRange.

(** X1. Whatever the expression, the classifier returns one of its tags:
    ["c"] or a text of the form ["len(...)"]; it has no other result. *)
Theorem classifier_returns_tag :
  forall e : ast.expr, is_tag (extract_iterable e) = true.
Proof.
  intros e. destruct (extract_iterable_cases e) as [[_ ->]|[_ [id ->]]].
  - reflexivity.
  - apply is_tag_len_of.
Qed.

(** X2. The classifier answers ["c"] for literals, for list, tuple, set and
    dict displays and for calls of the name [range] whose positional
    arguments are all literals (none included), and for nothing else. *)
Theorem constant_exactly_on_constant_sources :
  forall e : ast.expr,
    extract_iterable e = "c" <-> is_constant_source e = true.
Proof.
  intros e. destruct (extract_iterable_cases e) as [[Hc He]|[Hc [id He]]].
  - split; intros _; assumption.
  - rewrite He, Hc. split; [intros H | discriminate].
    exfalso. exact (len_of_not_c id H).
Qed.

(** X3. In a call of [range], what follows the first argument that is no
    literal, and the keyword arguments, never change the tag. *)
Theorem range_tag_ignores_later_arguments :
  forall (pre : list ast.expr) (arg : ast.expr) (post post' : list ast.expr)
         (kw kw' : list (option string * ast.expr)),
    forallb is_Constant pre = true ->
    is_Constant arg = false ->
    extract_iterable (ast.Call (ast.Name "range") (pre ++ arg :: post) kw)
    = extract_iterable (ast.Call (ast.Name "range") (pre ++ arg :: post') kw').
Proof.
  intros pre arg post post' kw kw' Hpre Harg.
  rewrite (range_first_nonliteral pre arg post kw Hpre Harg).
  rewrite (range_first_nonliteral pre arg post' kw' Hpre Harg).
  reflexivity.
Qed.

Lemma range_tag_ignores_later_arguments_witness :
  extract_iterable
    (ast.Call (ast.Name "range")
       ([ast.Constant (ast.CInt 0)] ++ ast.Name "n" :: [ast.Name "m"]) [])
  = extract_iterable
      (ast.Call (ast.Name "range")
         ([ast.Constant (ast.CInt 0)] ++ ast.Name "n" :: [])
         [(Some "step", ast.Name "k")]).
Proof.
  apply (range_tag_ignores_later_arguments
           [ast.Constant (ast.CInt 0)] (ast.Name "n") [ast.Name "m"] []
           [] [(Some "step", ast.Name "k")]); reflexivity.
Defined.

(** X4. Inside [range] only an [ast.Constant] counts as a literal: when the
    first argument that is no [ast.Constant] is a display or a unary
    operation such as [-1], the loop is tagged [len(other)], although the
    same display as the iteration source itself is constant. *)
Theorem range_over_display_is_not_constant :
  forall (pre : list ast.expr) (arg : ast.expr) (post : list ast.expr)
         (kw : list (option string * ast.expr)),
    forallb is_Constant pre = true ->
    is_Constant arg = false ->
    match arg with ast.Name _ | ast.Call _ _ _ => false | _ => true end = true ->
    extract_iterable (ast.Call (ast.Name "range") (pre ++ arg :: post) kw)
    = "len(other)".
Proof.
  intros pre arg post kw Hpre Harg Hshape.
  rewrite (range_first_nonliteral pre arg post kw Hpre Harg).
  destruct arg; try discriminate; reflexivity.
Qed.

Lemma range_over_display_is_not_constant_witness :
  extract_iterable
    (ast.Call (ast.Name "range")
       ([ast.Constant (ast.CInt 0)]
          ++ ast.List [ast.Constant (ast.CInt 1)] :: []) [])
  = "len(other)"
  /\ extract_iterable (ast.List [ast.Constant (ast.CInt 1)]) = "c".
Proof.
  split; [|reflexivity].
  apply (range_over_display_is_not_constant
           [ast.Constant (ast.CInt 0)] (ast.List [ast.Constant (ast.CInt 1)])
           [] []); reflexivity.
Defined.

(** X5. Two loops over bare identifiers get the same tag only when the
    identifiers are the same. *)
Theorem name_tag_injective :
  forall a b : string,
    extract_iterable (ast.Name a) = extract_iterable (ast.Name b) -> a = b.
Proof. intros a b H. apply len_of_inj. exact H. Qed.

Lemma name_tag_injective_witness : "xs" = "xs".
Proof. apply (name_tag_injective "xs" "xs"). reflexivity. Defined.

(** ** Further properties of the builder *)

Section BuilderFacts.

Lemma forest_size_block (f : ast.stmt -> list LoopNode) (g : ast.stmt -> nat)
    (b : list ast.stmt) :
  Forall (fun s => list_sum (List.map tree_size (f s)) = g s) b ->
  list_sum (List.map tree_size (flat_map f b)) = list_sum (List.map g b).
Proof.
  induction 1 as [|s b Hs _ IH]; simpl; [reflexivity|].
  rewrite List.map_app, list_sum_app, Hs, IH. reflexivity.
Qed.

Lemma forest_size_blocks (f : ast.stmt -> list LoopNode) (g : ast.stmt -> nat)
    (bs : list (list ast.stmt)) :
  Forall (Forall (fun s => list_sum (List.map tree_size (f s)) = g s)) bs ->
  list_sum (List.map tree_size (flat_map (flat_map f) bs))
  = list_sum (List.map (fun b => list_sum (List.map g b)) bs).
Proof.
  induction 1 as [|b bs Hb _ IH]; simpl; [reflexivity|].
  rewrite List.map_app, list_sum_app, IH, (forest_size_block f g b Hb).
  reflexivity.
Qed.

(** One node for each loop statement. *)
Lemma loops_of_stmt_size (s : ast.stmt) :
  list_sum (List.map tree_size (loops_of_stmt s)) = count_loops s.
Proof.
  induction s using stmt_ind'; simpl;
    rewrite ?List.map_app, ?list_sum_app;
    repeat match goal with
      | H : Forall (Forall _) _ |- _ =>
          rewrite (forest_size_blocks _ _ _ H); clear H
      | H : Forall _ _ |- _ =>
          rewrite (forest_size_block _ _ _ H); clear H
      end;
    lia.
Qed.

Lemma loops_of_module_size (body : ast.module) :
  tree_size (loops_of_module body) = S (count_loops_module body).
Proof.
  unfold loops_of_module, count_loops_module. simpl. f_equal.
  apply forest_size_block, Forall_forall. intros s _. apply loops_of_stmt_size.
Qed.

Lemma forallb_flat_map {A B : Type} (q : B -> bool) (f : A -> list B)
    (l : list A) :
  Forall (fun x => forallb q (f x) = true) l ->
  forallb q (flat_map f l) = true.
Proof.
  induction 1 as [|x l Hx _ IH]; simpl; [reflexivity|].
  rewrite forallb_app, Hx, IH. reflexivity.
Qed.

(** A property of kinds that holds of [While] and of every [For] kind the
    classifier can tag holds of all nodes the visitor creates. *)
Lemma loops_of_stmt_all_nodes (p : loop_kind -> bool) (s : ast.stmt) :
  (forall e, p (For (extract_iterable e)) = true) ->
  p While = true ->
  forallb (all_nodes p) (loops_of_stmt s) = true.
Proof.
  intros HFor HWhile.
  induction s using stmt_ind'; simpl;
    rewrite ?HFor, ?HWhile, ?forallb_app; simpl;
    repeat match goal with
      | H : Forall (Forall _) _ |- _ =>
          rewrite (forallb_flat_map (all_nodes p) (flat_map loops_of_stmt));
          [clear H
          | eapply Forall_impl; [exact H|]; simpl; intros;
            apply forallb_flat_map; assumption]
      | H : Forall _ _ |- _ =>
          rewrite (forallb_flat_map _ _ _ H); clear H
      end;
    reflexivity.
Qed.

Lemma loops_of_module_all_nodes (p : loop_kind -> bool) (body : ast.module) :
  (forall e, p (For (extract_iterable e)) = true) ->
  p While = true ->
  forallb (all_nodes p) (flat_map loops_of_stmt body) = true.
Proof.
  intros HFor HWhile. apply forallb_flat_map, Forall_forall.
  intros s _. apply loops_of_stmt_all_nodes; assumption.
Qed.



(** A statement without loop statements adds no node. *)
Lemma loops_of_stmt_nil (s : ast.stmt) :
  count_loops s = 0 -> loops_of_stmt s = [].
Proof.
  intros H. rewrite <- loops_of_stmt_size in H.
  destruct (loops_of_stmt s) as [|[k ch] ts]; [reflexivity|].
  simpl in H. lia.
Qed.

Lemma loops_of_block_nil (b : list ast.stmt) :
  list_sum (List.map count_loops b) = 0 -> flat_map loops_of_stmt b = [].
Proof.
  induction b as [|s b IH]; simpl; [reflexivity|].
  intros H. rewrite (loops_of_stmt_nil s), IH by lia. reflexivity.
Qed.

(** One visitor over two modules in turn: the second visit adds to the
    root the first one filled. *)
Lemma run_visitor_twice_correct (h : list LoopNodeObj) (first second : ast.module) :
  exists s,
    run_visitor_twice h first second = Some s
    /\ root_tree s = Some (loops_of_module (first ++ second)).
Proof.
  assert (Hr : (h ++ [mkObj Root []]) !! length h = Some (mkObj Root [])).
  { apply list_lookup_middle. reflexivity. }
  pose proof (visit_spec_seq _ _ _ _ (visit_Module_correct first)
                (visit_Module_correct second)) as V.
  destruct (V (h ++ [mkObj Root []]) (length h) [] (length h)
              (ex_intro _ _ Hr)) as (h' & E & X).
  destruct X as (k & cs0 & cs & Hl & Hl' & Hlen & _ & Hnew & Hre).
  rewrite Hr in Hl. injection Hl as <- <-. simpl in Hl'.
  rewrite length_app in Hnew. simpl in Hnew.
  exists (mkState h' (length h) [length h]). split.
  - unfold run_visitor_twice, LoopTreeVisitor. simpl in E. rewrite E. reflexivity.
  - apply root_tree_reifies. simpl. unfold loops_of_module.
    rewrite flat_map_app.
    apply reifies_node with (cs := cs); [exact Hl' | | exact Hre].
    eapply Forall_impl; [exact Hnew|]. simpl. intros; lia.
Qed.


End BuilderFacts.


(** X7. Sibling order: the root built for two statement sequences one
    after the other has the children built for the first followed by the
    children built for the second. *)
Theorem siblings_in_source_order :
  forall first second : ast.module,
    build_loop_tree (first ++ second)
    = Some (mkLoopNode Root (built_children first ++ built_children second)).
Proof.
  intros first second. unfold built_children.
  rewrite !build_loop_tree_correct. unfold loops_of_module.
  rewrite flat_map_app. reflexivity.
Qed.

(** X8. The tree has one node for each [for] and [while] statement of the
    module, at whatever depth it stands, and the root: no statement of
    another kind becomes a node and no loop is lost. *)
Theorem one_node_per_loop :
  forall body : ast.module,
    exists t : LoopNode,
      build_loop_tree body = Some t
      /\ tree_size t = S (count_loops_module body).
Proof.
  intros body. exists (loops_of_module body).
  split; [apply build_loop_tree_correct | apply loops_of_module_size].
Qed.

(** X9. The [else] clause of a loop is walked after its body under the
    same node: a loop with an [else] clause builds the tree of the loop
    whose body ends with the statements of that clause. *)
Theorem else_clause_is_part_of_body :
  forall (pre post : ast.module) (target iter test : ast.expr)
         (body orelse : list ast.stmt),
    build_loop_tree (pre ++ ast.For target iter body orelse :: post)
    = build_loop_tree (pre ++ ast.For target iter (body ++ orelse) [] :: post)
    /\ build_loop_tree (pre ++ ast.While test body orelse :: post)
       = build_loop_tree (pre ++ ast.While test (body ++ orelse) [] :: post).
Proof.
  intros. rewrite !build_loop_tree_correct. unfold loops_of_module.
  rewrite !flat_map_app. simpl. rewrite !flat_map_app. simpl.
  rewrite !app_nil_r. split; reflexivity.
Qed.

(** X10. Statements that are no loops are transparent: an [if], a [with],
    a function or class definition or a [try] builds the tree that its
    blocks, put in its place in the order of its fields, build. *)
Theorem compound_statements_are_transparent :
  forall (pre post : ast.module) (test : ast.expr) (items : list ast.expr)
         (name : string) (body orelse finalbody : list ast.stmt)
         (handlers : list (list ast.stmt)),
    build_loop_tree (pre ++ ast.If test body orelse :: post)
    = build_loop_tree (pre ++ (body ++ orelse) ++ post)
    /\ build_loop_tree (pre ++ ast.With items body :: post)
       = build_loop_tree (pre ++ body ++ post)
    /\ build_loop_tree (pre ++ ast.FunctionDef name body :: post)
       = build_loop_tree (pre ++ body ++ post)
    /\ build_loop_tree (pre ++ ast.ClassDef name body :: post)
       = build_loop_tree (pre ++ body ++ post)
    /\ build_loop_tree (pre ++ ast.Try body handlers orelse finalbody :: post)
       = build_loop_tree
           (pre ++ (body ++ List.concat handlers ++ orelse ++ finalbody) ++ post).
Proof.
  intros.
  assert (Hh : flat_map loops_of_stmt (List.concat handlers)
               = flat_map (flat_map loops_of_stmt) handlers).
  { induction handlers as [|hd handlers IH]; simpl; [reflexivity|].
    rewrite flat_map_app, IH. reflexivity. }
  rewrite !build_loop_tree_correct. unfold loops_of_module.
  rewrite ?flat_map_app. simpl. rewrite ?flat_map_app, ?Hh, <- ?app_assoc.
  repeat split; reflexivity.
Qed.

(** X11. There is one root: the tree the builder returns has kind [Root]
    at the top and no node of kind [Root] anywhere below it. *)
Theorem exactly_one_root :
  forall body : ast.module,
    exists ch : list LoopNode,
      build_loop_tree body = Some (mkLoopNode Root ch)
      /\ forallb (all_nodes is_loop_kind) ch = true.
Proof.
  intros body. exists (flat_map loops_of_stmt body).
  split; [apply build_loop_tree_correct|].
  apply loops_of_module_all_nodes; reflexivity.
Qed.

(** X12. A visitor keeps what it has built: one visitor that visits two
    modules in turn ends with the tree a fresh visitor builds for the two
    modules put together, so visiting the same module twice doubles the
    children of the root. *)
Theorem visitor_reuse_accumulates :
  forall (h : list LoopNodeObj) (first second : ast.module),
    match run_visitor_twice h first second with
    | Some s => root_tree s
    | None => None
    end = build_loop_tree (first ++ second).
Proof.
  intros h first second.
  destruct (run_visitor_twice_correct h first second) as (s & -> & ->).
  rewrite build_loop_tree_correct. reflexivity.
Qed.

(** X13. A statement that holds no [for] and no [while] statement leaves
    no trace in the tree. *)
Theorem loop_free_statement_leaves_no_trace :
  forall (pre post : ast.module) (s : ast.stmt),
    count_loops s = 0 ->
    build_loop_tree (pre ++ s :: post) = build_loop_tree (pre ++ post).
Proof.
  intros pre post s H. rewrite !build_loop_tree_correct. unfold loops_of_module.
  rewrite !flat_map_app. simpl. rewrite (loops_of_stmt_nil s H). reflexivity.
Qed.

Lemma loop_free_statement_leaves_no_trace_witness :
  build_loop_tree
    (sample_code ++ ast.If (ast.Name "flag") [ast.Pass] [ast.Break] :: [])
  = build_loop_tree (sample_code ++ []).
Proof.
  apply (loop_free_statement_leaves_no_trace sample_code []
           (ast.If (ast.Name "flag") [ast.Pass] [ast.Break])).
  reflexivity.
Defined.

(** ** Further properties of the evaluator and of the pipeline *)

Section EvaluatorFacts.

Lemma render_nonempty (e : cost_expr) : render e <> "".
Proof.
  assert (A : forall a b : string, a <> "" -> (a ++ b)%string <> "").
  { intros [|c a] b H; [contradiction | discriminate]. }
  induction e; simpl; try discriminate; apply A; assumption.
Qed.

(** On a tree whose [For] nodes carry tags the cost is the text of a
    structural cost expression. *)
Lemma tagged_cost_rendered (t : LoopNode) :
  well_tagged t = true -> rendered (compute_complexity t).
Proof.
  induction t as [k ch IH] using LoopNode_ind'. intros W.
  simpl in W. apply andb_prop in W as [Wk Wch].
  assert (Hcs : Forall rendered (List.map compute_complexity ch)).
  { clear Wk. induction IH as [|c ch Hc _ IHch]; simpl; [constructor|].
    simpl in Wch. apply andb_prop in Wch as [Wc Wch].
    constructor; [apply Hc, Wc | apply IHch, Wch]. }
  destruct (inner_cost_rendered _ Hcs) as [ei Hi].
  destruct k as [|it|].
  - rewrite root_cost_eq. apply root_sum_rendered, Hcs.
  - rewrite for_cost_code. cbv zeta. rewrite Hi.
    assert (Hfe : rendered (if String.eqb it "c" then "1" else it)).
    { destruct (is_tag_spec it Wk) as [->|[x ->]];
        [exists Identity | exists (LengthOf x)]; reflexivity. }
    destruct Hfe as [ef ->].
    destruct (String.eqb (render ei) "1"); [exists ef; reflexivity|].
    destruct (String.eqb (render ef) "1");
      [exists ei | exists (Product ef ei)]; reflexivity.
  - simpl. rewrite Hi.
    destruct (String.eqb (render ei) "1");
      [exists Unknown | exists (Product Unknown ei)]; reflexivity.
Qed.

Lemma time_complexity_correct (body : ast.module) :
  time_complexity body = Some (compute_complexity (loops_of_module body)).
Proof. unfold time_complexity. rewrite build_loop_tree_correct. reflexivity. Qed.

Lemma filter_head_holds {A : Type} (f : A -> bool) (l : list A) (x : A)
    (xs : list A) :
  List.filter f l = x :: xs -> f x = true.
Proof.
  intros H. assert (I : In x (List.filter f l)) by (rewrite H; left; reflexivity).
  apply filter_In in I. apply I.
Qed.

End EvaluatorFacts.


(** X15. A module that holds no [for] and no [while] statement costs
    ["1"]. *)
Theorem loop_free_module_costs_one :
  forall body : ast.module,
    count_loops_module body = 0 -> time_complexity body = Some "1".
Proof.
  intros body H. rewrite time_complexity_correct. unfold loops_of_module.
  rewrite (loops_of_block_nil body H). reflexivity.
Qed.

Lemma loop_free_module_costs_one_witness :
  time_complexity
    [ast.FunctionDef "f"
       [ast.If (ast.Name "flag") [ast.Return None] [ast.Pass]]]
  = Some "1".
Proof. apply loop_free_module_costs_one. reflexivity. Defined.

(** X16. The root costs ["1"] only when every child costs ["1"]: a child
    with another cost always shows in the root's sum. *)
Theorem root_costs_one_iff :
  forall children : list LoopNode,
    compute_complexity (mkLoopNode Root children) = "1"
    <-> forallb is_one (List.map compute_complexity children) = true.
Proof.
  intros children. rewrite root_cost_eq. unfold root_sum.
  destruct (List.filter not_one (List.map compute_complexity children))
    as [|c cs] eqn:F.
  - split; [intros _; apply filter_not_one_nil, F | reflexivity].
  - split.
    + intros H. exfalso.
      pose proof (filter_head_holds _ _ _ _ F) as Hc.
      assert (I : inner_cost (c :: cs) = "1") by exact H.
      apply inner_cost_one_iff in I as [I|I]; [discriminate|].
      injection I as -> _. discriminate.
    + intros H. apply filter_not_one_nil in H. congruence.
Qed.

(** X17. A [While] node costs the bare ["?"] exactly when it has no child
    or a single child that costs ["1"]; two or more children always give a
    product, also when each of them costs ["1"].  Its cost is never ["1"],
    so a [while] loop is never dropped from a sum. *)
Theorem while_costs_unknown_iff :
  forall children : list LoopNode,
    (compute_complexity (mkLoopNode While children) = "?"
     <-> children = [] \/ List.map compute_complexity children = ["1"])
    /\ compute_complexity (mkLoopNode While children) <> "1".
Proof.
  intros children.
  change (compute_complexity (mkLoopNode While children))
    with (let inner := inner_cost (List.map compute_complexity children) in
          if String.eqb inner "1" then "?" else ("?*(" ++ inner ++ ")")%string).
  cbv zeta.
  destruct (String.eqb (inner_cost (List.map compute_complexity children)) "1")
    eqn:E.
  - apply String.eqb_eq, inner_cost_one_iff in E. split; [|discriminate].
    split; [intros _ | reflexivity].
    destruct E as [E|E]; [left | right; exact E].
    destruct children; [reflexivity | discriminate].
  - apply String.eqb_neq in E. split; [|discriminate].
    split; [discriminate|].
    intros H. exfalso. apply E, inner_cost_one_iff.
    destruct H as [->|H]; [left; reflexivity | right; exact H].
Qed.

(** X18. On a tree whose [For] nodes carry tags the cost is never the
    empty text. *)
Theorem cost_is_not_empty :
  forall t : LoopNode, well_tagged t = true -> compute_complexity t <> "".
Proof.
  intros t W. destruct (tagged_cost_rendered t W) as [e ->].
  apply render_nonempty.
Qed.

Lemma cost_is_not_empty_witness : compute_complexity tagged_tree <> "".
Proof. apply (cost_is_not_empty tagged_tree). reflexivity. Defined.

(** X19. A node that adds no factor is transparent over a single child:
    the root over one loop, and a constant [for] loop around one loop,
    cost what that loop costs. *)
Theorem neutral_node_over_one_child :
  forall t : LoopNode,
    compute_complexity (mkLoopNode Root [t]) = compute_complexity t
    /\ compute_complexity (mkLoopNode (For "c") [t]) = compute_complexity t.
Proof.
  intros t. split.
  - rewrite root_cost_eq. unfold root_sum. simpl. unfold not_one.
    destruct (String.eqb (compute_complexity t) "1") eqn:E; simpl.
    + apply String.eqb_eq in E. congruence.
    + reflexivity.
  - rewrite for_cost_code. simpl.
    destruct (String.eqb (compute_complexity t) "1") eqn:E.
    + apply String.eqb_eq in E. congruence.
    + reflexivity.
Qed.

(** ** The serializer and the printer *)

Section Presentation.

Lemma map_inj_on {A B : Type} (f : A -> B) (l : list A) :
  Forall (fun x => forall y, f x = f y -> x = y) l ->
  forall l', List.map f l = List.map f l' -> l = l'.
Proof.
  induction 1 as [|x l Hx _ IH]; intros [|y l'] H; simpl in H;
    try discriminate; [reflexivity|].
  injection H as Hxy Hl. f_equal; [apply Hx, Hxy | apply IH, Hl].
Qed.

Lemma leading_spaces_spaces (n : nat) (s : string) :
  leading_spaces (spaces n ++ s) = n + leading_spaces s.
Proof. induction n as [|n IH]; simpl; [reflexivity | rewrite IH; reflexivity]. Qed.

(** The line of a node starts with [indent] blanks and no more. *)
Lemma print_loop_tree_head (k : loop_kind) (ch : list LoopNode) (indent : nat) :
  exists line rest,
    print_loop_tree (mkLoopNode k ch) indent = line :: rest
    /\ leading_spaces line = indent
    /\ rest = flat_map (fun child => print_loop_tree child (indent + 4)) ch.
Proof.
  eexists. eexists. split; [reflexivity|]. split; [|reflexivity].
  destruct k; rewrite leading_spaces_spaces; simpl; lia.
Qed.

Lemma list_max_cons (x : nat) (l : list nat) :
  list_max (x :: l) = Nat.max x (list_max l).
Proof. reflexivity. Qed.

Lemma print_loop_tree_indent (t : LoopNode) : forall indent d,
  list_max (List.map leading_spaces (print_loop_tree t indent)) + 4 * d
  = indent + 4 * deepest d t.
Proof.
  induction t as [k ch IH] using LoopNode_ind'. intros indent d.
  destruct (print_loop_tree_head k ch indent) as (line & rest & -> & Hl & ->).
  rewrite List.map_cons, list_max_cons, Hl.
  change (deepest d (mkLoopNode k ch))
    with (fold_right Nat.max d (List.map (deepest (S d)) ch)).
  induction IH as [|c ch Hc _ IHch].
  - simpl. lia.
  - cbn [flat_map List.map fold_right].
    rewrite List.map_app, list_max_app.
    specialize (Hc (indent + 4) (S d)). lia.
Qed.

Lemma print_loop_tree_length (t : LoopNode) : forall indent,
  length (print_loop_tree t indent) = tree_size t.
Proof.
  induction t as [k ch IH] using LoopNode_ind'. intros indent.
  simpl. f_equal.
  induction IH as [|c ch Hc _ IHch]; simpl; [reflexivity|].
  rewrite length_app, Hc, IHch. reflexivity.
Qed.

End Presentation.

(** X20. [loop_to_dict] loses nothing: two trees with the same dict are
    the same tree, kinds, tags and order of children included. *)
Theorem loop_to_dict_injective :
  forall t1 t2 : LoopNode, loop_to_dict t1 = loop_to_dict t2 -> t1 = t2.
Proof.
  induction t1 as [k ch IH] using LoopNode_ind'. intros [k2 ch2] H.
  assert (Hch : List.map loop_to_dict ch = List.map loop_to_dict ch2 -> ch = ch2)
    by apply (map_inj_on loop_to_dict ch IH).
  destruct k, k2; simpl in H; try discriminate;
    inversion H; subst; f_equal; apply Hch; assumption.
Qed.

Lemma loop_to_dict_injective_witness : tagged_tree = tagged_tree.
Proof. apply (loop_to_dict_injective tagged_tree tagged_tree). reflexivity. Defined.

(** X21. [print_loop_tree] prints one line for each node of the tree;
    the first is the line of the node it is called on, starting with
    exactly [indent] blanks, and the lines of its children follow in order,
    each child printed with four blanks more. *)
Theorem print_loop_tree_lines :
  forall (t : LoopNode) (indent : nat),
    length (print_loop_tree t indent) = tree_size t
    /\ exists line rest,
         print_loop_tree t indent = line :: rest
         /\ leading_spaces line = indent
         /\ rest = flat_map (fun child => print_loop_tree child (indent + 4))
                     (match t with mkLoopNode _ ch => ch end).
Proof.
  intros t indent. split; [apply print_loop_tree_length|].
  destruct t as [k ch].
  destruct (print_loop_tree_head k ch indent) as (line & rest & E & Hl & Hr).
  exists line, rest. repeat split; assumption.
Qed.

(** X22. The line of a node starts with four blanks for each level
    between the node and the root, after the [indent] of the call: the
    widest indentation printed is [indent] plus four times the depth of
    the tree. *)
Theorem print_loop_tree_widest_indent :
  forall (t : LoopNode) (indent : nat),
    list_max (List.map leading_spaces (print_loop_tree t indent))
    = indent + 4 * tree_depth t.
Proof.
  intros t indent. pose proof (print_loop_tree_indent t indent 0) as H.
  unfold tree_depth. lia.
Qed.

(** ** The objects the visitor allocates *)

Section Allocation.

Lemma allocates_ret : allocates (ret tt) 0.
Proof. unfold allocates, ret. intros s s' H. inversion H; subst. lia. Qed.

Lemma allocates_seq (m1 m2 : M unit) (n1 n2 : nat) :
  allocates m1 n1 -> allocates m2 n2 -> allocates (m1 ;;; m2) (n1 + n2).
Proof.
  intros H1 H2 s s' H. unfold bind in H.
  destruct (m1 s) as [[[] s1]|] eqn:E1; [|discriminate].
  rewrite (H2 _ _ H), (H1 _ _ E1). lia.
Qed.

Lemma allocates_for_each {A : Type} (f : A -> M unit) (g : A -> nat)
    (xs : list A) :
  Forall (fun x => allocates (f x) (g x)) xs ->
  allocates (for_each f xs) (list_sum (List.map g xs)).
Proof.
  induction 1 as [|x xs Hx _ IH]; simpl.
  - apply allocates_ret.
  - apply allocates_seq; assumption.
Qed.

Lemma allocates_enter_loop visit k body orelse nb no :
  allocates (for_each visit body) nb ->
  allocates (for_each visit orelse) no ->
  allocates (enter_loop visit k body orelse) (S (nb + no)).
Proof.
  intros Hb Ho s s' H.
  unfold enter_loop, bind, new_LoopNode, stack_top, children_append,
    stack_append in H.
  cbn [store root loop_stack] in H.
  destruct (last (loop_stack s)) as [top|]; [|discriminate].
  cbn [store root loop_stack] in H.
  destruct ((store s ++ [mkObj k []]) !! top) as [o|]; [|discriminate].
  cbn [store root loop_stack] in H.
  destruct (for_each visit body _) as [[[] s1]|] eqn:E1; [|discriminate].
  destruct (for_each visit orelse s1) as [[[] s2]|] eqn:E2; [|discriminate].
  apply Hb in E1. apply Ho in E2. cbn [store] in E1.
  rewrite length_insert, length_app in E1. simpl in E1.
  unfold stack_pop in H. destruct (loop_stack s2); [discriminate|].
  injection H as <-. cbn [store]. lia.
Qed.

Lemma visit_allocates (s : ast.stmt) : allocates (visit s) (count_loops s).
Proof.
  induction s using stmt_ind'; simpl;
    try apply allocates_ret;
    try (apply allocates_enter_loop; apply allocates_for_each; assumption);
    rewrite <- ?Nat.add_assoc;
    repeat first
      [ apply allocates_for_each; try assumption
      | apply allocates_seq ].
  all: eapply Forall_impl; [eassumption|]; simpl;
    intros hd Hhd; apply allocates_for_each; exact Hhd.
Qed.

End Allocation.

(** X23. The visitor creates one object for the root and one for each
    [for] and [while] statement, and no other: after a run the store has
    grown by one more than the number of loop statements of the module. *)
Theorem one_object_per_loop :
  forall (h : list LoopNodeObj) (body : ast.module),
    exists s : state,
      run_visitor h body = Some s
      /\ length (store s) = length h + 1 + count_loops_module body.
Proof.
  intros h body.
  destruct (run_visitor_correct h body) as (s & E & _).
  exists s. split; [exact E|].
  unfold run_visitor in E.
  destruct (visit_Module body (LoopTreeVisitor h)) as [[[] s0]|] eqn:V;
    [|discriminate].
  injection E as ->.
  assert (A : allocates (visit_Module body) (count_loops_module body)).
  { apply allocates_for_each, Forall_forall. intros x _. apply visit_allocates. }
  rewrite (A _ _ V). unfold LoopTreeVisitor. cbn [store].
  rewrite length_app. simpl. lia.
Qed.


(** ** The cost of a [While] node against the specification *)

(** C5. In [while busy:] over two loops on list displays the children cost
    ["1"] each.  By the convention of the [For] node, the root's sum, the
    sum of the children's costs is ["1"] and the node costs the bare ["?"];
    the evaluator joins both costs and answers [?*(1 + 1)]. *)
Theorem while_inner_keeps_ones :
  build_loop_tree two_constant_loops_in_while
  = Some (mkLoopNode Root
            [mkLoopNode While
               [mkLoopNode (For "c") []; mkLoopNode (For "c") []]])
  /\ compute_complexity
       (mkLoopNode While [mkLoopNode (For "c") []; mkLoopNode (For "c") []])
     = "?*(1 + 1)"
  /\ while_cost_as_specified ["1"; "1"] = "?"
  /\ time_complexity two_constant_loops_in_while = Some "?*(1 + 1)".
Proof. repeat split; vm_compute; reflexivity. Qed.

(** ** Depth of the tree against the nesting the specification speaks of *)

(** C7, as stated, fails.  A [for] loop in the body of an [async for] loop
    is nested two deep in the source and lies at depth one in the tree,
    since the visitor makes no node for [async for]; a loop in the [else]
    clause of a loop is not nested in it, and lies at depth two in the
    tree, since the visitor walks the clause under the loop's node. *)
Lemma tree_depth_differs_from_source_nesting :
  (build_loop_tree for_in_async_for
   = Some (mkLoopNode Root [mkLoopNode (For "len(ys)") []])
   /\ tree_depth (mkLoopNode Root [mkLoopNode (For "len(ys)") []]) = 1
   /\ source_nesting_depth for_in_async_for = 2)
  /\ (build_loop_tree for_in_else_clause
      = Some (mkLoopNode Root
                [mkLoopNode (For "len(xs)") [mkLoopNode (For "len(ys)") []]])
      /\ tree_depth
           (mkLoopNode Root
              [mkLoopNode (For "len(xs)") [mkLoopNode (For "len(ys)") []]]) = 2
      /\ source_nesting_depth for_in_else_clause = 1).
Proof. repeat split; vm_compute; reflexivity. Qed.

(** ** The evaluator under the bound on recursion *)

Section BoundedEvaluator.











End BoundedEvaluator.



